(** * Shallow embedding of shannon/discrete.py

    Python values used as symbols, the exceptions the module raises, the
    IEEE-style float results of numpy (modelled over the real numbers, with
    explicit infinities and NaN), and the functions [entropy],
    [symbols_to_prob], [combine_symbols], [mi], [cond_mi] and
    [mi_chain_rule]. *)

From Stdlib Require Import String Reals Lra Bool ZArith Arith Lia List.
Set Warnings "-register-all".
Set Warnings "-notation-overridden".
Import ListNotations.
Open Scope R_scope.

(** ** Python values *)

(** Symbols: Python ints, tuples and lists (a list, like a numpy row, is
    unhashable). *)
Inductive val : Type :=
| VInt (z : Z)
| VTuple (l : list val)
| VList (l : list val).

(** Python [==] on these values. *)
Fixpoint val_eqb (a b : val) : bool :=
  match a, b with
  | VInt x, VInt y => Z.eqb x y
  | VTuple xs, VTuple ys =>
      (fix go (xs ys : list val) : bool :=
         match xs, ys with
         | [], [] => true
         | x :: xs', y :: ys' => val_eqb x y && go xs' ys'
         | _, _ => false
         end) xs ys
  | VList xs, VList ys =>
      (fix go (xs ys : list val) : bool :=
         match xs, ys with
         | [], [] => true
         | x :: xs', y :: ys' => val_eqb x y && go xs' ys'
         | _, _ => false
         end) xs ys
  | _, _ => false
  end.

(** Whether [hash(v)] succeeds: ints and tuples of hashable values. *)
Fixpoint hashable (v : val) : bool :=
  match v with
  | VInt _ => true
  | VTuple l =>
      (fix go (l : list val) : bool :=
         match l with
         | [] => true
         | x :: l' => hashable x && go l'
         end) l
  | VList _ => false
  end.

(** ** Exceptions and results *)

Inductive exn : Type :=
| ValueError (msg : string)
| TypeError (msg : string)
| IndexError (msg : string).

Inductive result (A : Type) : Type :=
| Ok (a : A)
| Err (e : exn).
Arguments Ok {A} a.
Arguments Err {A} e.

Definition bind {A B : Type} (m : result A) (k : A -> result B) : result B :=
  match m with
  | Ok a => k a
  | Err e => Err e
  end.

Notation "x <- m ;; k" := (bind m (fun x => k))
  (at level 61, m at next level, right associativity).

Definition msg_neither : string :=
  "shannon.discrete.entropy requires either 'prob' or 'data' to be defined".
Definition msg_both : string :=
  "shannon.discrete.entropy requires only 'prob' or 'data to be given but not both".
Definition msg_ndarray : string :=
  "'entropy' in 'shannon.discrete' needs 'prob' to be an ndarray".
Definition msg_sum : string :=
  "parameter 'prob' in 'shannon.discrete.entropy' should sum to 1".
Definition msg_sizes : string :=
  "combine_symbols got inputs with different sizes".
Definition msg_unhashable : string := "unhashable type: 'list'".
Definition msg_index : string :=
  "index 0 is out of bounds for axis 0 with size 0".

(** ** Floats

    A Python/numpy float: a finite value (a real number), an infinity or
    NaN.  Arithmetic follows IEEE 754 on the special values. *)
Inductive pyfloat : Type :=
| Fin (r : R)
| PInf
| NInf
| NaN.

Definition pf_add (a b : pyfloat) : pyfloat :=
  match a, b with
  | Fin x, Fin y => Fin (x + y)
  | NaN, _ | _, NaN => NaN
  | PInf, NInf | NInf, PInf => NaN
  | PInf, _ | _, PInf => PInf
  | NInf, _ | _, NInf => NInf
  end.

(** Sign of a finite factor multiplied with an infinity. *)
Definition inf_times (x : R) (pos : bool) : pyfloat :=
  if Req_EM_T x 0 then NaN
  else if Rlt_dec 0 x then (if pos then PInf else NInf)
  else (if pos then NInf else PInf).

Definition pf_mul (a b : pyfloat) : pyfloat :=
  match a, b with
  | Fin x, Fin y => Fin (x * y)
  | NaN, _ | _, NaN => NaN
  | Fin x, PInf | PInf, Fin x => inf_times x true
  | Fin x, NInf | NInf, Fin x => inf_times x false
  | PInf, PInf | NInf, NInf => PInf
  | PInf, NInf | NInf, PInf => NInf
  end.

Definition pf_sub (a b : pyfloat) : pyfloat := pf_add a (pf_mul (Fin (-1)) b).

(** [np.log2] on one entry. *)
Definition np_log2 (q : R) : pyfloat :=
  if Rlt_dec 0 q then Fin (ln q / ln 2)
  else if Req_EM_T q 0 then NInf
  else NaN.

(** [logProb[logProb==-np.inf] = 0] on one entry. *)
Definition replace_ninf (v : pyfloat) : pyfloat :=
  match v with
  | NInf => Fin 0
  | _ => v
  end.

(** [np.dot] of a 1-D float array with a 1-D array of the same length. *)
Definition np_dot (p : list R) (l : list pyfloat) : pyfloat :=
  fold_left (fun acc ab => pf_add acc (pf_mul (Fin (fst ab)) (snd ab)))
    (combine p l) (Fin 0).

(** [ndarray.sum()]. *)
Definition sumR (l : list R) : R := fold_right Rplus 0 l.

(** ** [symbols_to_prob] *)

(** One step of [collections.Counter]: a dict keeps its keys in
    first-insertion order. *)
Fixpoint counter_add (k : val) (c : list (val * nat)) : list (val * nat) :=
  match c with
  | [] => [(k, 1%nat)]
  | (k', n) :: c' =>
      if val_eqb k k' then (k', S n) :: c' else (k', n) :: counter_add k c'
  end.

(** [Counter(symbols)] on top of the counts already in [acc]; hashing an
    unhashable symbol raises [TypeError]. *)
Fixpoint count_into (acc : list (val * nat)) (s : list val)
  : result (list (val * nat)) :=
  match s with
  | [] => Ok acc
  | v :: s' =>
      if hashable v then count_into (counter_add v acc) s'
      else Err (TypeError msg_unhashable)
  end.

Definition Counter (s : list val) : result (list (val * nat)) := count_into [] s.

(** [asList = list(Counter(symbols).values())], [N = float(sum(asList))],
    [np.array([n/N for n in asList])]. *)
Definition symbols_to_prob (symbols : list val) : result (list R) :=
  c <- Counter symbols ;;
  let asList := map snd c in
  let N := INR (list_sum asList) in
  Ok (map (fun n => INR n / N) asList).

(** ** [entropy] *)

(** The [prob] argument: a numpy ndarray, or another Python sequence of
    numbers (a list or a tuple). *)
Inductive numseq : Type :=
| NdArray (a : list R)
| PySeq (a : list R).

Definition errorVal_default : R := 1 / 100000.

(** Lines 41-45: [logProb = np.log2(prob)], [-inf] replaced by 0,
    [-1.0 * np.dot(prob, logProb)]. *)
Definition entropy_of (prob : list R) : pyfloat :=
  let logProb := map replace_ninf (map np_log2 prob) in
  pf_mul (Fin (-1)) (np_dot prob logProb).

Definition entropy (data : option (list val)) (prob : option numseq)
  (errorVal : R) : result pyfloat :=
  match prob, data with
  | None, None => Err (ValueError msg_neither)
  | Some _, Some _ => Err (ValueError msg_both)
  | Some pr, None =>
      match pr with
      | PySeq _ => Err (TypeError msg_ndarray)
      | NdArray p =>
          if Rlt_dec errorVal (Rabs (sumR p - 1))
          then Err (ValueError msg_sum)
          else Ok (entropy_of p)
      end
  | None, Some d =>
      p <- symbols_to_prob d ;;
      Ok (entropy_of p)
  end.

(** [entropy(prob=p)] with the default [errorVal], as [mi] and [cond_mi]
    call it. *)
Definition entropy_prob (p : list R) : result pyfloat :=
  entropy None (Some (NdArray p)) errorVal_default.

(** ** [combine_symbols] *)

(** The heads of all sequences, or [None] once one of them is exhausted. *)
Fixpoint heads (args : list (list val)) : option (list val) :=
  match args with
  | [] => Some []
  | s :: r =>
      match s with
      | [] => None
      | v :: _ => option_map (cons v) (heads r)
      end
  end.

(** [zip( *args)]: tuples of the heads while no argument is exhausted; it
    stops at the shortest argument, hence after at most [length args[0]]
    steps, the fuel. *)
Fixpoint zip_fuel (fuel : nat) (args : list (list val)) : list (list val) :=
  match fuel with
  | O => []
  | S f =>
      match heads args with
      | Some hs => hs :: zip_fuel f (map (@tl val) args)
      | None => []
      end
  end.

Definition zip_star (args : list (list val)) : list (list val) :=
  match args with
  | [] => []
  | a0 :: _ => zip_fuel (length a0) args
  end.

Definition combine_symbols (args : list (list val)) : result (list val) :=
  if forallb (fun arg => Nat.eqb (length arg) (length (hd [] args))) args
  then Ok (map VTuple (zip_star args))
  else Err (ValueError msg_sizes).

(** ** [mi], [cond_mi], [mi_chain_rule] *)

(** [zip(x, y)] of two sequences, as the tuples it yields. *)
Fixpoint zip2 (x y : list val) : list val :=
  match x, y with
  | a :: x', b :: y' => VTuple [a; b] :: zip2 x' y'
  | _, _ => []
  end.

Definition mi (x y : list val) : result pyfloat :=
  probX <- symbols_to_prob x ;;
  probY <- symbols_to_prob y ;;
  probXY <- symbols_to_prob (zip2 x y) ;;
  hX <- entropy_prob probX ;;
  hY <- entropy_prob probY ;;
  hXY <- entropy_prob probXY ;;
  Ok (pf_sub (pf_add hX hY) hXY).

Definition cond_mi (x y z : list val) : result pyfloat :=
  xz <- combine_symbols [x; z] ;;
  probXZ <- symbols_to_prob xz ;;
  yz <- combine_symbols [y; z] ;;
  probYZ <- symbols_to_prob yz ;;
  xyz <- combine_symbols [x; y; z] ;;
  probXYZ <- symbols_to_prob xyz ;;
  probZ <- symbols_to_prob z ;;
  hXZ <- entropy_prob probXZ ;;
  hYZ <- entropy_prob probYZ ;;
  hXYZ <- entropy_prob probXYZ ;;
  hZ <- entropy_prob probZ ;;
  Ok (pf_sub (pf_sub (pf_add hXZ hYZ) hXYZ) hZ).

(** An element of [X]: a Python list (or numpy row, both unhashable) or a
    tuple holding a symbol sequence. *)
Inductive seqkind : Type := SList | STuple.

Record pyseq : Type := mkseq { kind : seqkind; items : list val }.

(** The sequence as a Python value, as it appears inside [X[:i]]. *)
Definition seq_value (s : pyseq) : val :=
  match kind s with
  | SList => VList (items s)
  | STuple => VTuple (items s)
  end.

(** The loop [for i in range(i, i + n): chain[i] = cond_mi(X[i], y, X[:i])]. *)
Fixpoint chain_loop (X : list pyseq) (y : list val) (i n : nat)
  : result (list pyfloat) :=
  match n with
  | O => Ok []
  | S n' =>
      c <- cond_mi (items (nth i X (mkseq SList []))) y
                   (map seq_value (firstn i X)) ;;
      rest <- chain_loop X y (S i) n' ;;
      Ok (c :: rest)
  end.

(** [chain = np.zeros(len(X))]; [chain[0] = mi(X[0], y)]; the loop over
    [range(1, len(X))]. *)
Definition mi_chain_rule (X : list pyseq) (y : list val)
  : result (list pyfloat) :=
  match X with
  | [] => Err (IndexError msg_index)
  | x0 :: _ =>
      c0 <- mi (items x0) y ;;
      rest <- chain_loop X y 1 (length X - 1) ;;
      Ok (c0 :: rest)
  end.

(** ** The summand of the spec's formula

    [p * log2 p], with the convention [0 * log2 0 = 0] of the spec
    (EntropyCalculator, zero-probability convention). *)
Definition plogp (q : R) : R :=
  if Req_EM_T q 0 then 0 else q * (ln q / ln 2).

(** ** Sanity checks on concrete inputs *)

Example combine_symbols_two :
  combine_symbols [[VInt 0; VInt 1]; [VInt 5; VInt 6]]
  = Ok [VTuple [VInt 0; VInt 5]; VTuple [VInt 1; VInt 6]].
Proof. reflexivity. Qed.

Example combine_symbols_sizes :
  combine_symbols [[VInt 0; VInt 1]; [VInt 5]] = Err (ValueError msg_sizes).
Proof. reflexivity. Qed.

Example counter_order :
  Counter [VInt 3; VInt 1; VInt 3; VInt 3] = Ok [(VInt 3, 3%nat); (VInt 1, 1%nat)].
Proof. reflexivity. Qed.

Example counter_unhashable :
  Counter [VInt 3; VTuple [VList []]] = Err (TypeError msg_unhashable).
Proof. reflexivity. Qed.

Example symbols_to_prob_empty : symbols_to_prob [] = Ok [].
Proof. reflexivity. Qed.

(** ** Lemmas on results *)

Lemma bind_Ok {A B : Type} (a : A) (k : A -> result B) : bind (Ok a) k = k a.
Proof. reflexivity. Qed.

(** Two computations whose only possible error is the same exception can be
    run in either order. *)
Lemma bind_swap {A B C : Type} (e0 : exn) (ma : result A) (mb : result B)
  (k : A -> B -> result C) :
  (forall e, ma = Err e -> e = e0) ->
  (forall e, mb = Err e -> e = e0) ->
  bind ma (fun a => bind mb (fun b => k a b))
  = bind mb (fun b => bind ma (fun a => k a b)).
Proof.
  intros Ha Hb.
  destruct ma as [a | ea], mb as [b | eb]; simpl; try reflexivity.
  - rewrite (Hb eb eq_refl), (Ha ea eq_refl). reflexivity.
Qed.

(** ** Lemmas on values *)

Lemma val_eqb_refl : forall v, val_eqb v v = true.
Proof.
  fix IH 1. intros [z | l | l]; simpl.
  - apply Z.eqb_refl.
  - induction l as [| x l IHl]; [reflexivity |]. rewrite IH. exact IHl.
  - induction l as [| x l IHl]; [reflexivity |]. rewrite IH. exact IHl.
Qed.

Lemma hashable_pair (a b : val) :
  hashable (VTuple [a; b]) = hashable a && hashable b.
Proof. simpl. rewrite andb_true_r. reflexivity. Qed.

(** ** Lemmas on [Counter] and [symbols_to_prob] *)

Lemma count_into_hashable : forall s acc,
  forallb hashable s = true ->
  count_into acc s = Ok (fold_left (fun c v => counter_add v c) s acc).
Proof.
  induction s as [| v s IH]; intros acc H; simpl in *; [reflexivity |].
  apply andb_true_iff in H as [Hv Hs]. rewrite Hv. apply IH, Hs.
Qed.

Lemma count_into_err : forall s acc e,
  count_into acc s = Err e -> e = TypeError msg_unhashable.
Proof.
  induction s as [| v s IH]; intros acc e H; simpl in H; [discriminate |].
  destruct (hashable v); [eapply IH; exact H | congruence].
Qed.

Lemma counter_add_sum : forall k c,
  list_sum (map snd (counter_add k c)) = S (list_sum (map snd c)).
Proof.
  intros k. induction c as [| [k' n] c IH]; simpl; [reflexivity |].
  destruct (val_eqb k k'); simpl; [reflexivity |]. rewrite IH. lia.
Qed.

Lemma count_fold_sum : forall s acc,
  list_sum (map snd (fold_left (fun c v => counter_add v c) s acc))
  = (length s + list_sum (map snd acc))%nat.
Proof.
  induction s as [| v s IH]; intros acc; simpl; [reflexivity |].
  rewrite IH, counter_add_sum. lia.
Qed.

Lemma sumR_div : forall (l : list nat) (N : R),
  sumR (map (fun n => INR n / N) l) = INR (list_sum l) / N.
Proof.
  induction l as [| n l IH]; intros N; simpl.
  - unfold Rdiv. ring.
  - rewrite IH, plus_INR. unfold Rdiv. ring.
Qed.

Lemma symbols_to_prob_err : forall s e,
  symbols_to_prob s = Err e -> e = TypeError msg_unhashable.
Proof.
  intros s e H. unfold symbols_to_prob, Counter in H.
  destruct (count_into [] s) eqn:Hc; simpl in H; [discriminate |].
  inversion H; subst. eapply count_into_err; exact Hc.
Qed.

(** On a non-empty sequence of hashable symbols the estimated
    distribution has non-negative entries summing to 1. *)
Lemma symbols_to_prob_ok : forall s,
  s <> [] -> forallb hashable s = true ->
  exists p, symbols_to_prob s = Ok p
            /\ sumR p = 1 /\ Forall (fun q => 0 <= q) p.
Proof.
  intros s Hne Hh. unfold symbols_to_prob, Counter.
  rewrite count_into_hashable by exact Hh. simpl.
  set (c := fold_left (fun c v => counter_add v c) s []).
  assert (HN : list_sum (map snd c) = length s).
  { unfold c. rewrite count_fold_sum. simpl. lia. }
  assert (HNpos : 0 < INR (list_sum (map snd c))).
  { rewrite HN. apply lt_0_INR. destruct s; [congruence | simpl; lia]. }
  eexists; split; [reflexivity | split].
  - rewrite sumR_div. unfold Rdiv. apply Rinv_r. lra.
  - apply Forall_forall. intros q Hq. apply in_map_iff in Hq as [n [<- _]].
    unfold Rdiv. apply Rmult_le_pos; [apply pos_INR |].
    left. apply Rinv_0_lt_compat. exact HNpos.
Qed.

(** ** Lemmas on [entropy] *)

(** On a non-negative entry, the product computed by [np.dot] for that
    entry is the spec's summand. *)
Lemma entry_term : forall q, 0 <= q ->
  pf_mul (Fin q) (replace_ninf (np_log2 q)) = Fin (plogp q).
Proof.
  intros q Hq. unfold np_log2, plogp.
  destruct (Rlt_dec 0 q) as [Hlt | Hnlt].
  - destruct (Req_EM_T q 0) as [E | _]; [lra | reflexivity].
  - assert (E : q = 0) by lra. subst q.
    destruct (Req_EM_T 0 0) as [_ | N]; [| congruence].
    simpl. f_equal. ring.
Qed.

Lemma np_dot_nonneg : forall p acc,
  Forall (fun q => 0 <= q) p ->
  fold_left (fun acc ab => pf_add acc (pf_mul (Fin (fst ab)) (snd ab)))
    (combine p (map (fun q => replace_ninf (np_log2 q)) p)) (Fin acc)
  = Fin (acc + sumR (map plogp p)).
Proof.
  induction p as [| q p IH]; intros acc Hp; cbn [combine map fold_left fst snd].
  - simpl. f_equal. ring.
  - inversion Hp as [| ? ? Hq Hp']; subst.
    rewrite (entry_term q Hq). cbn [pf_add]. rewrite IH by exact Hp'.
    f_equal. unfold sumR. cbn [map fold_right]. ring.
Qed.

(** On non-negative entries the computed entropy is the finite real
    [- sum (p * log2 p)] with [0 * log2 0 = 0]. *)
Lemma entropy_of_nonneg : forall p,
  Forall (fun q => 0 <= q) p ->
  entropy_of p = Fin (- sumR (map plogp p)).
Proof.
  intros p Hp. unfold entropy_of, np_dot. rewrite map_map.
  rewrite np_dot_nonneg by exact Hp. simpl. f_equal. ring.
Qed.

Lemma entropy_prob_err : forall p e,
  entropy_prob p = Err e -> e = ValueError msg_sum.
Proof.
  intros p e H. unfold entropy_prob, entropy in H.
  destruct (Rlt_dec _ _); congruence.
Qed.

Lemma entropy_prob_valid : forall p,
  sumR p = 1 -> Forall (fun q => 0 <= q) p ->
  entropy_prob p = Ok (Fin (- sumR (map plogp p))).
Proof.
  intros p Hs Hp. unfold entropy_prob, entropy, errorVal_default.
  rewrite Hs. replace (1 - 1) with 0 by ring. rewrite Rabs_R0.
  destruct (Rlt_dec _ _) as [H | _]; [lra |].
  rewrite entropy_of_nonneg by exact Hp. reflexivity.
Qed.

Lemma forallb_zip2 : forall x y,
  forallb hashable x = true -> forallb hashable y = true ->
  forallb hashable (zip2 x y) = true.
Proof.
  induction x as [| a x IH]; intros [| b y] Hx Hy; simpl in *; try reflexivity.
  apply andb_true_iff in Hx as [Ha Hx]. apply andb_true_iff in Hy as [Hb Hy].
  rewrite Ha, Hb, IH by assumption. reflexivity.
Qed.

(** [mi] on non-empty sequences of hashable symbols returns a finite
    float, whatever their lengths. *)
Lemma mi_finite : forall x y,
  x <> [] -> y <> [] ->
  forallb hashable x = true -> forallb hashable y = true ->
  exists r, mi x y = Ok (Fin r).
Proof.
  intros x y Hx Hy Hhx Hhy. unfold mi.
  destruct (symbols_to_prob_ok x Hx Hhx) as [px [-> [Spx Ppx]]].
  destruct (symbols_to_prob_ok y Hy Hhy) as [py [-> [Spy Ppy]]].
  assert (Hz : zip2 x y <> []).
  { destruct x, y; simpl; congruence. }
  destruct (symbols_to_prob_ok (zip2 x y) Hz (forallb_zip2 x y Hhx Hhy))
    as [pxy [-> [Spxy Ppxy]]].
  simpl.
  rewrite (entropy_prob_valid px), (entropy_prob_valid py),
    (entropy_prob_valid pxy) by assumption.
  simpl. eexists. reflexivity.
Qed.

Lemma entropy_data_err : forall d e x,
  entropy (Some d) None e = Err x -> x = TypeError msg_unhashable.
Proof.
  intros d e x H. unfold entropy in H.
  destruct (symbols_to_prob d) eqn:Hp; simpl in H; [discriminate |].
  inversion H; subst. eapply symbols_to_prob_err; exact Hp.
Qed.

Lemma entropy_prob_arg_err : forall p e x,
  entropy None (Some p) e = Err x ->
  x = TypeError msg_ndarray \/ x = ValueError msg_sum.
Proof.
  intros [a | a] e x H; unfold entropy in H.
  - destruct (Rlt_dec _ _); inversion H; auto.
  - inversion H; auto.
Qed.

Lemma forallb_repeat : forall a n,
  hashable a = true -> forallb hashable (repeat a n) = true.
Proof.
  intros a n Ha. induction n as [| n IH]; simpl; [reflexivity |].
  rewrite Ha, IH. reflexivity.
Qed.

Lemma count_repeat : forall a m k,
  fold_left (fun c v => counter_add v c) (repeat a m) [(a, k)]
  = [(a, (k + m)%nat)].
Proof.
  intros a m. induction m as [| m IH]; intros k; simpl.
  - rewrite Nat.add_0_r. reflexivity.
  - rewrite val_eqb_refl, IH. f_equal. f_equal. lia.
Qed.

Lemma symbols_to_prob_repeat : forall a m,
  hashable a = true -> symbols_to_prob (repeat a (S m)) = Ok [1].
Proof.
  intros a m Ha. unfold symbols_to_prob, Counter.
  rewrite count_into_hashable by apply forallb_repeat, Ha.
  cbn [repeat fold_left counter_add].
  rewrite count_repeat. cbn [bind map snd list_sum fold_right].
  f_equal. f_equal. rewrite Nat.add_0_r.
  field. apply not_0_INR. lia.
Qed.

Lemma plogp_1 : plogp 1 = 0.
Proof.
  unfold plogp. destruct (Req_EM_T 1 0) as [E | _]; [lra |].
  rewrite ln_1. unfold Rdiv. ring.
Qed.

Lemma entropy_of_1 : entropy_of [1] = Fin 0.
Proof.
  rewrite entropy_of_nonneg by (repeat constructor; lra).
  cbn [map sumR fold_right]. rewrite plogp_1. f_equal. ring.
Qed.

(** ** Claims on [entropy] *)

(** C3 (counterexample): on the empty sequence [symbols_to_prob] raises
    nothing and returns the empty distribution, and [entropy(data=[])]
    returns 0. *)
Lemma empty_input_no_error :
  symbols_to_prob [] = Ok [] /\ entropy (Some []) None errorVal_default = Ok (Fin 0).
Proof.
  split; [reflexivity |]. unfold entropy. rewrite symbols_to_prob_empty, bind_Ok.
  rewrite entropy_of_nonneg by constructor. cbn [map sumR fold_right]. do 2 f_equal. ring.
Qed.

(** C3 (amended): for every tolerance, probability estimation on the
    empty sequence returns the empty distribution (no division happens),
    and [entropy(data=[])] returns 0 instead of raising. *)
Theorem empty_input_gives_empty_distribution : forall e,
  symbols_to_prob [] = Ok [] /\ entropy (Some []) None e = Ok (Fin 0).
Proof.
  intros e. split; [reflexivity |]. unfold entropy. rewrite symbols_to_prob_empty, bind_Ok.
  rewrite entropy_of_nonneg by constructor. cbn [map sumR fold_right]. do 2 f_equal. ring.
Qed.

(** C4: [entropy] raises [ValueError] when both or neither of [data] and
    [prob] are given; when exactly one is given neither of these two
    errors is raised. *)
Theorem entropy_exactly_one_argument : forall d p e,
  entropy None None e = Err (ValueError msg_neither)
  /\ entropy (Some d) (Some p) e = Err (ValueError msg_both)
  /\ entropy (Some d) None e <> Err (ValueError msg_neither)
  /\ entropy (Some d) None e <> Err (ValueError msg_both)
  /\ entropy None (Some p) e <> Err (ValueError msg_neither)
  /\ entropy None (Some p) e <> Err (ValueError msg_both).
Proof.
  intros d p e.
  split; [reflexivity |]. split; [reflexivity |].
  split; [| split; [| split]]; intro H.
  - apply entropy_data_err in H. discriminate.
  - apply entropy_data_err in H. discriminate.
  - apply entropy_prob_arg_err in H as [H | H]; [discriminate |].
    injection H as H. unfold msg_sum, msg_neither in H. discriminate.
  - apply entropy_prob_arg_err in H as [H | H]; [discriminate |].
    injection H as H. unfold msg_sum, msg_both in H. discriminate.
Qed.

(** C5 (counterexample): the ndarray [[1.5, -0.5]] has a negative entry
    and sums to 1; it passes validation and its entropy is NaN. *)
Lemma negative_entry_passes_validation :
  -1/2 < 0
  /\ entropy None (Some (NdArray [3/2; -1/2])) errorVal_default = Ok NaN.
Proof.
  split; [lra |]. unfold entropy, errorVal_default.
  replace (sumR [3/2; -1/2] - 1) with 0 by (unfold sumR; cbn [fold_right]; lra).
  rewrite Rabs_R0. destruct (Rlt_dec _ _) as [H | _]; [lra |].
  unfold entropy_of, np_dot, np_log2. cbn [map].
  destruct (Rlt_dec 0 (3/2)) as [_ | H]; [| lra].
  destruct (Rlt_dec 0 (-1/2)) as [H | _]; [lra |].
  destruct (Req_EM_T (-1/2) 0) as [H | _]; [lra |].
  reflexivity.
Qed.

(** C5 (amended): an ndarray [prob] given alone is rejected with
    [ValueError] exactly when its sum deviates from 1 by more than
    [errorVal]; otherwise the entropy is computed.  The sign of the
    entries is not checked. *)
Theorem entropy_validates_sum_only : forall p e,
  (entropy None (Some (NdArray p)) e = Err (ValueError msg_sum)
   <-> e < Rabs (sumR p - 1))
  /\ (Rabs (sumR p - 1) <= e ->
      entropy None (Some (NdArray p)) e = Ok (entropy_of p)).
Proof.
  intros p e. unfold entropy. split.
  - destruct (Rlt_dec e (Rabs (sumR p - 1))) as [H | H]; split; intro K;
      try assumption; try reflexivity; [discriminate | contradiction].
  - intros H. destruct (Rlt_dec e (Rabs (sumR p - 1))) as [K | _];
      [lra | reflexivity].
Qed.

(** C6: for a valid ndarray distribution (non-negative entries, sum within
    the tolerance) the entropy is the finite real [- sum p log2 p] in which
    every zero entry contributes 0. *)
Theorem entropy_zero_entries_contribute_zero : forall p e,
  Forall (fun q => 0 <= q) p -> Rabs (sumR p - 1) <= e ->
  entropy None (Some (NdArray p)) e = Ok (Fin (- sumR (map plogp p))).
Proof.
  intros p e Hp Hs. unfold entropy.
  destruct (Rlt_dec e (Rabs (sumR p - 1))) as [K | _]; [lra |].
  rewrite entropy_of_nonneg by exact Hp. reflexivity.
Qed.

Lemma entropy_zero_entries_contribute_zero_witness :
  Forall (fun q => 0 <= q) [1/2; 0; 1/2]
  /\ Rabs (sumR [1/2; 0; 1/2] - 1) <= errorVal_default
  /\ entropy None (Some (NdArray [1/2; 0; 1/2])) errorVal_default
     = Ok (Fin (- sumR (map plogp [1/2; 0; 1/2]))).
Proof.
  assert (Hp : Forall (fun q => 0 <= q) [1/2; 0; 1/2])
    by (repeat constructor; lra).
  assert (Hs : Rabs (sumR [1/2; 0; 1/2] - 1) <= errorVal_default).
  { replace (sumR [1/2; 0; 1/2] - 1) with 0 by (unfold sumR; cbn [fold_right]; lra).
    rewrite Rabs_R0. unfold errorVal_default. lra. }
  split; [exact Hp | split; [exact Hs |]].
  apply (entropy_zero_entries_contribute_zero [1/2; 0; 1/2] errorVal_default Hp Hs).
Defined.

(** C7: the entropy of the one-point ndarray [[1.0]] is exactly 0, and so
    is the entropy of data made of one hashable symbol repeated. *)
Theorem entropy_one_point_is_zero : forall e a m,
  0 <= e -> hashable a = true ->
  entropy None (Some (NdArray [1])) e = Ok (Fin 0)
  /\ entropy (Some (repeat a (S m))) None e = Ok (Fin 0).
Proof.
  intros e a m He Ha. split.
  - unfold entropy.
    replace (sumR [1] - 1) with 0 by (unfold sumR; cbn [fold_right]; lra).
    rewrite Rabs_R0. destruct (Rlt_dec e 0) as [K | _]; [lra |].
    rewrite entropy_of_1. reflexivity.
  - unfold entropy. rewrite symbols_to_prob_repeat by exact Ha.
    rewrite bind_Ok, entropy_of_1. reflexivity.
Qed.

Lemma entropy_one_point_is_zero_witness :
  0 <= errorVal_default /\ hashable (VInt 7) = true
  /\ entropy None (Some (NdArray [1])) errorVal_default = Ok (Fin 0)
  /\ entropy (Some (repeat (VInt 7) 4)) None errorVal_default = Ok (Fin 0).
Proof.
  assert (He : 0 <= errorVal_default) by (unfold errorVal_default; lra).
  split; [exact He | split; [reflexivity |]].
  apply (entropy_one_point_is_zero errorVal_default (VInt 7) 3 He eq_refl).
Defined.

(** C10: an ndarray is required: a [prob] given alone as another Python
    sequence raises [TypeError] whatever its entries. *)
Theorem entropy_requires_ndarray : forall p e,
  entropy None (Some (PySeq p)) e = Err (TypeError msg_ndarray).
Proof. reflexivity. Qed.

(** ** Counting is invariant under a relabelling that preserves equality *)

Section Relabel.
Variable A : Type.
Variables f g : A -> val.
Hypothesis Heq : forall u v, val_eqb (f u) (f v) = val_eqb (g u) (g v).
Hypothesis Hhash : forall u, hashable (f u) = hashable (g u).

Definition related (c1 c2 : list (val * nat)) : Prop :=
  Forall2 (fun kn1 kn2 => snd kn1 = snd kn2
                          /\ exists u, fst kn1 = f u /\ fst kn2 = g u) c1 c2.

Lemma counter_add_related : forall u c1 c2,
  related c1 c2 -> related (counter_add (f u) c1) (counter_add (g u) c2).
Proof.
  intros u c1 c2 H. induction H as [| [k1 n1] [k2 n2] c1 c2 Hkn H IH];
    simpl.
  - repeat constructor; simpl; eauto.
  - destruct Hkn as [Hn [w [Hk1 Hk2]]]; simpl in *; subst.
    rewrite (Heq u w). destruct (val_eqb (g u) (g w)).
    + constructor; [split; simpl; eauto | exact H].
    + constructor; [split; simpl; eauto | exact IH].
Qed.

Lemma count_into_related : forall l c1 c2,
  related c1 c2 ->
  match count_into c1 (map f l), count_into c2 (map g l) with
  | Ok a, Ok b => related a b
  | Err e1, Err e2 => e1 = e2
  | _, _ => False
  end.
Proof.
  induction l as [| u l IH]; intros c1 c2 H; simpl; [exact H |].
  rewrite (Hhash u). destruct (hashable (g u)); [| reflexivity].
  apply IH, counter_add_related, H.
Qed.

Lemma related_values : forall c1 c2, related c1 c2 -> map snd c1 = map snd c2.
Proof.
  intros c1 c2 H. induction H as [| a b c1 c2 [Hn _] H IH]; simpl;
    [reflexivity | rewrite Hn, IH; reflexivity].
Qed.

Lemma symbols_to_prob_relabel : forall l,
  symbols_to_prob (map f l) = symbols_to_prob (map g l).
Proof.
  intros l. unfold symbols_to_prob, Counter.
  pose proof (count_into_related l [] [] (Forall2_nil _)) as H.
  destruct (count_into [] (map f l)), (count_into [] (map g l));
    try contradiction; simpl.
  - rewrite (related_values _ _ H). reflexivity.
  - subst. reflexivity.
Qed.
End Relabel.

Lemma zip2_combine : forall x y,
  zip2 x y = map (fun ab => VTuple [fst ab; snd ab]) (combine x y)
  /\ zip2 y x = map (fun ab => VTuple [snd ab; fst ab]) (combine x y).
Proof.
  induction x as [| a x IH]; intros [| b y]; simpl; try (split; reflexivity).
  destruct (IH y) as [H1 H2]. rewrite H1, H2. split; reflexivity.
Qed.

(** The joint distribution of [zip(y, x)] is the one of [zip(x, y)],
    entry for entry. *)
Lemma symbols_to_prob_zip2_swap : forall x y,
  symbols_to_prob (zip2 y x) = symbols_to_prob (zip2 x y).
Proof.
  intros x y. destruct (zip2_combine x y) as [-> ->].
  symmetry. apply symbols_to_prob_relabel.
  - intros [a b] [c d]. simpl. rewrite !andb_true_r. apply andb_comm.
  - intros [a b]. simpl. rewrite !andb_true_r. apply andb_comm.
Qed.

Lemma pf_add_comm : forall a b, pf_add a b = pf_add b a.
Proof.
  intros [x | | |] [y | | |]; simpl; try reflexivity. rewrite Rplus_comm.
  reflexivity.
Qed.

(** ** Claim on [mi] *)

(** C8: [mi] is symmetric.  This holds for all pairs of sequences, equal
    lengths or not: both orders raise the same exception or return the same
    float. *)
Theorem mi_symmetric : forall x y, mi x y = mi y x.
Proof.
  intros x y. unfold mi. rewrite (symbols_to_prob_zip2_swap x y).
  destruct (symbols_to_prob x) as [px | ex] eqn:Hx,
           (symbols_to_prob y) as [py | ey] eqn:Hy; cbn [bind].
  - destruct (symbols_to_prob (zip2 x y)) as [pxy |]; cbn [bind];
      [| reflexivity].
    destruct (entropy_prob px) as [hx | e1] eqn:E1,
             (entropy_prob py) as [hy | e2] eqn:E2; cbn [bind];
      try reflexivity.
    + destruct (entropy_prob pxy); cbn [bind]; [| reflexivity].
      rewrite (pf_add_comm hx hy). reflexivity.
    + rewrite (entropy_prob_err _ _ E1), (entropy_prob_err _ _ E2).
      reflexivity.
  - reflexivity.
  - reflexivity.
  - rewrite (symbols_to_prob_err _ _ Hx), (symbols_to_prob_err _ _ Hy).
    reflexivity.
Qed.

(** ** Claim on [combine_symbols] *)

Lemma heads_nonempty : forall args m,
  Forall (fun s => length s = S m) args ->
  heads args = Some (map (fun s => nth 0 s (VInt 0)) args).
Proof.
  induction args as [| s args IH]; intros m H; simpl; [reflexivity |].
  inversion H as [| ? ? Hs H']; subst.
  destruct s as [| v s]; simpl in Hs; [discriminate |].
  rewrite (IH m H'). reflexivity.
Qed.

Lemma zip_fuel_columns : forall n args,
  Forall (fun s => length s = n) args ->
  zip_fuel n args
  = map (fun i => map (fun s => nth i s (VInt 0)) args) (seq 0 n).
Proof.
  induction n as [| m IH]; intros args H; [reflexivity |].
  cbn [zip_fuel]. rewrite (heads_nonempty args m H).
  rewrite IH.
  - cbn [seq map]. f_equal.
    rewrite <- seq_shift, !map_map. apply map_ext. intros i.
    rewrite map_map. apply map_ext. intros [| v s]; [destruct i |]; reflexivity.
  - apply Forall_map. eapply Forall_impl; [| exact H].
    intros [| v s] Hs; simpl in *; lia.
Qed.

(** C9: on k >= 1 sequences of a common length n, [combine_symbols]
    returns a sequence of length n whose element i is the tuple of the
    i-th elements of the arguments, in argument order. *)
Theorem combine_symbols_tuples : forall args n,
  args <> [] -> Forall (fun s => length s = n) args ->
  exists out, combine_symbols args = Ok out
    /\ length out = n
    /\ forall i, (i < n)%nat ->
       nth_error out i = Some (VTuple (map (fun s => nth i s (VInt 0)) args)).
Proof.
  intros args n Hne H.
  destruct args as [| a0 rest]; [congruence |].
  assert (Ha0 : length a0 = n) by (inversion H; assumption).
  unfold combine_symbols. cbn [hd].
  replace (forallb _ (a0 :: rest)) with true.
  2:{ symmetry. apply forallb_forall. intros s Hs. apply Nat.eqb_eq.
      rewrite Ha0. eapply Forall_forall in H; [exact H | exact Hs]. }
  unfold zip_star. rewrite Ha0, (zip_fuel_columns n _ H).
  eexists; split; [reflexivity |]. split.
  - rewrite !length_map, length_seq. reflexivity.
  - intros i Hi. rewrite map_map, nth_error_map.
    rewrite nth_error_seq. destruct (Nat.ltb_spec i n); [| lia].
    reflexivity.
Qed.

Lemma combine_symbols_tuples_witness :
  exists out,
    combine_symbols [[VInt 0; VInt 1]; [VInt 5; VInt 6]; [VInt 8; VInt 9]] = Ok out
    /\ length out = 2%nat
    /\ forall i, (i < 2)%nat ->
       nth_error out i
       = Some (VTuple (map (fun s => nth i s (VInt 0))
                          [[VInt 0; VInt 1]; [VInt 5; VInt 6]; [VInt 8; VInt 9]])).
Proof.
  apply (combine_symbols_tuples
           [[VInt 0; VInt 1]; [VInt 5; VInt 6]; [VInt 8; VInt 9]] 2).
  - discriminate.
  - repeat constructor.
Defined.

(** ** Claims on [mi_chain_rule] *)

(** For [k >= 2], the second term calls [cond_mi(X[1], y, X[:1])]: the
    conditioning argument is the list of the previous sequences, not their
    element-wise combination, and [combine_symbols(X[1], X[:1])] compares
    [len(X[1])] with [len(X[:1]) = 1]. *)
Lemma mi_chain_rule_prefix_length : forall x0 x1 rest y,
  items x0 <> [] -> y <> [] ->
  forallb hashable (items x0) = true -> forallb hashable y = true ->
  length (items x1) <> 1%nat ->
  mi_chain_rule (x0 :: x1 :: rest) y = Err (ValueError msg_sizes).
Proof.
  intros x0 x1 rest y Hx0 Hy Hh0 Hhy Hlen.
  unfold mi_chain_rule.
  destruct (mi_finite (items x0) y Hx0 Hy Hh0 Hhy) as [r ->].
  cbn [bind]. replace (length (x0 :: x1 :: rest) - 1)%nat
    with (S (length rest)) by (simpl; lia).
  cbn [chain_loop nth firstn map]. unfold cond_mi at 1, combine_symbols at 1.
  cbn [forallb hd length]. rewrite Nat.eqb_refl.
  replace (1 =? length (items x1))%nat with false
    by (symmetry; apply Nat.eqb_neq; lia).
  reflexivity.
Qed.

(** C1 (code bug): with [X = [[0, 1], [0, 1]]] and [y = [0, 1]]
    [mi_chain_rule] raises [ValueError] from [combine_symbols] instead of
    returning [I(X0; y)] and [I(X1; y | X0)]. *)
Theorem mi_chain_rule_fails_on_two_sequences :
  mi_chain_rule [mkseq SList [VInt 0; VInt 1]; mkseq SList [VInt 0; VInt 1]]
    [VInt 0; VInt 1]
  = Err (ValueError msg_sizes).
Proof.
  apply mi_chain_rule_prefix_length; simpl; (discriminate || reflexivity).
Qed.

(** C2 (counterexample): [X[0] = [0, 0]] and [y = [0]] differ in length,
    yet [mi_chain_rule] returns a result. *)
Lemma chain_rule_length_mismatch_returns :
  length (items (mkseq SList [VInt 0; VInt 0])) <> length [VInt 0]
  /\ exists r, mi_chain_rule [mkseq SList [VInt 0; VInt 0]] [VInt 0] = Ok [Fin r].
Proof.
  split; [discriminate |].
  destruct (mi_finite [VInt 0; VInt 0] [VInt 0]) as [r Hr];
    try discriminate; try reflexivity.
  exists r. unfold mi_chain_rule. cbn [items]. rewrite Hr. reflexivity.
Qed.

(** C2 (amended): [mi_chain_rule] checks no lengths.  For [k = 1] and
    non-empty sequences [X[0]] and [y] of hashable symbols, of any lengths,
    it returns the single term [mi(X[0], y)], a finite float; [mi] pairs
    the two sequences with [zip], which stops at the shorter one. *)
Theorem chain_rule_single_no_length_check : forall x0 y,
  items x0 <> [] -> y <> [] ->
  forallb hashable (items x0) = true -> forallb hashable y = true ->
  mi_chain_rule [x0] y = (c <- mi (items x0) y ;; Ok [c])
  /\ exists r, mi_chain_rule [x0] y = Ok [Fin r].
Proof.
  intros x0 y Hx Hy Hhx Hhy.
  destruct (mi_finite (items x0) y Hx Hy Hhx Hhy) as [r Hr].
  unfold mi_chain_rule. rewrite Hr. split; [reflexivity |].
  exists r. reflexivity.
Qed.

Lemma chain_rule_single_no_length_check_witness :
  mi_chain_rule [mkseq STuple [VInt 0; VInt 1; VInt 1]] [VInt 0; VInt 1]
  = (c <- mi [VInt 0; VInt 1; VInt 1] [VInt 0; VInt 1] ;; Ok [c])
  /\ exists r,
     mi_chain_rule [mkseq STuple [VInt 0; VInt 1; VInt 1]] [VInt 0; VInt 1]
     = Ok [Fin r].
Proof.
  apply (chain_rule_single_no_length_check
           (mkseq STuple [VInt 0; VInt 1; VInt 1]) [VInt 0; VInt 1]);
    simpl; (discriminate || reflexivity).
Defined.

(** ** Further properties of [symbols_to_prob] and [entropy] on data *)

Lemma counter_add_pos : forall k c,
  Forall (fun kn => (1 <= snd kn)%nat) c ->
  Forall (fun kn => (1 <= snd kn)%nat) (counter_add k c).
Proof.
  intros k c H. induction H as [| [k' n] c Hn H IH]; simpl.
  - repeat constructor.
  - destruct (val_eqb k k'); constructor; simpl in *; auto; lia.
Qed.

Lemma count_fold_pos : forall s acc,
  Forall (fun kn => (1 <= snd kn)%nat) acc ->
  Forall (fun kn => (1 <= snd kn)%nat)
    (fold_left (fun c v => counter_add v c) s acc).
Proof.
  induction s as [| v s IH]; intros acc H; simpl; [exact H |].
  apply IH, counter_add_pos, H.
Qed.

Lemma in_le_list_sum : forall l n, In n l -> (n <= list_sum l)%nat.
Proof.
  induction l as [| m l IH]; intros n H; simpl in *; [contradiction |].
  destruct H as [<- | H]; [lia | specialize (IH n H); lia].
Qed.

Lemma count_into_unhashable : forall s acc,
  forallb hashable s = false -> count_into acc s = Err (TypeError msg_unhashable).
Proof.
  induction s as [| v s IH]; intros acc H; simpl in *; [discriminate |].
  destruct (hashable v); simpl in H; [apply IH, H | reflexivity].
Qed.

Lemma symbols_to_prob_bounds : forall s,
  s <> [] -> forallb hashable s = true ->
  exists p, symbols_to_prob s = Ok p
            /\ sumR p = 1 /\ Forall (fun q => 0 < q <= 1) p.
Proof.
  intros s Hne Hh. destruct (symbols_to_prob_ok s Hne Hh) as [p [Hp [Hs _]]].
  exists p. split; [exact Hp | split; [exact Hs |]].
  unfold symbols_to_prob, Counter in Hp.
  rewrite count_into_hashable in Hp by exact Hh. simpl in Hp.
  injection Hp as <-.
  set (c := fold_left (fun c v => counter_add v c) s []).
  assert (Hpos : Forall (fun kn => (1 <= snd kn)%nat) c)
    by (apply count_fold_pos; constructor).
  assert (HN : list_sum (map snd c) = length s).
  { unfold c. rewrite count_fold_sum. simpl. lia. }
  assert (HNpos : 0 < INR (list_sum (map snd c))).
  { rewrite HN. apply lt_0_INR. destruct s; [congruence | simpl; lia]. }
  apply Forall_forall. intros q Hq. apply in_map_iff in Hq as [n [<- Hn]].
  assert (H1 : (1 <= n)%nat).
  { apply in_map_iff in Hn as [kn [<- Hkn]].
    eapply Forall_forall in Hpos; [exact Hpos | exact Hkn]. }
  assert (H2 : INR n <= INR (list_sum (map snd c)))
    by (apply le_INR, in_le_list_sum, Hn).
  assert (H3 : 0 < INR n) by (apply lt_0_INR; lia).
  split.
  - unfold Rdiv. apply Rmult_lt_0_compat; [exact H3 |].
    apply Rinv_0_lt_compat, HNpos.
  - apply (Rmult_le_reg_r (INR (list_sum (map snd c)))); [exact HNpos |].
    unfold Rdiv. rewrite Rmult_assoc, Rinv_l by lra. lra.
Qed.

Lemma plogp_nonpos : forall q, 0 < q <= 1 -> plogp q <= 0.
Proof.
  intros q [Hq0 Hq1]. unfold plogp.
  destruct (Req_EM_T q 0) as [E | _]; [lra |].
  assert (Hl2 : 0 < ln 2) by (pose proof ln_lt_2; lra).
  assert (Hlq : ln q <= 0).
  { destruct (Req_EM_T q 1) as [-> | Hne]; [rewrite ln_1; lra |].
    rewrite <- ln_1. left. apply ln_increasing; lra. }
  assert (Hi : 0 < / ln 2) by (apply Rinv_0_lt_compat, Hl2).
  assert (Hm : q * ln q <= 0) by nra.
  unfold Rdiv. rewrite <- Rmult_assoc. nra.
Qed.

Lemma sumR_nonpos : forall l, Forall (fun q => q <= 0) l -> sumR l <= 0.
Proof.
  intros l H. induction H as [| q l Hq H IH]; simpl; lra.
Qed.

(** [symbols_to_prob] on a non-empty sequence of hashable symbols returns
    entries in (0, 1] summing to 1: no symbol gets probability 0. *)
Theorem symbols_to_prob_entries_positive : forall s,
  s <> [] -> forallb hashable s = true ->
  exists p, symbols_to_prob s = Ok p
            /\ sumR p = 1 /\ Forall (fun q => 0 < q <= 1) p.
Proof. exact symbols_to_prob_bounds. Qed.

Lemma symbols_to_prob_entries_positive_witness :
  exists p, symbols_to_prob [VInt 2; VInt 5; VInt 2] = Ok p
            /\ sumR p = 1 /\ Forall (fun q => 0 < q <= 1) p.
Proof.
  apply symbols_to_prob_entries_positive; [discriminate | reflexivity].
Defined.

(** [symbols_to_prob] raises an error exactly when some symbol is
    unhashable, and that error is always the [TypeError] of hashing. *)
Theorem symbols_to_prob_error_iff_unhashable : forall s,
  (symbols_to_prob s = Err (TypeError msg_unhashable)
   <-> forallb hashable s = false)
  /\ (forall e, symbols_to_prob s = Err e -> e = TypeError msg_unhashable).
Proof.
  intros s. split; [| apply symbols_to_prob_err].
  unfold symbols_to_prob, Counter. split; intro H.
  - destruct (forallb hashable s) eqn:Hh; [| reflexivity].
    rewrite count_into_hashable in H by exact Hh. discriminate.
  - rewrite count_into_unhashable by exact H. reflexivity.
Qed.

(** The entropy of a non-empty sequence of hashable symbols is a finite,
    non-negative float. *)
Theorem entropy_data_nonneg : forall d e,
  d <> [] -> forallb hashable d = true ->
  exists r, entropy (Some d) None e = Ok (Fin r) /\ 0 <= r.
Proof.
  intros d e Hne Hh.
  destruct (symbols_to_prob_bounds d Hne Hh) as [p [Hp [_ Hb]]].
  unfold entropy. rewrite Hp, bind_Ok.
  rewrite entropy_of_nonneg
    by (eapply Forall_impl; [| exact Hb]; simpl; intros; lra).
  eexists; split; [reflexivity |].
  cut (sumR (map plogp p) <= 0); [lra |].
  apply sumR_nonpos, Forall_map. eapply Forall_impl; [| exact Hb].
  intros q Hq. apply plogp_nonpos, Hq.
Qed.

Lemma entropy_data_nonneg_witness :
  exists r, entropy (Some [VInt 0; VInt 1; VInt 1]) None errorVal_default
            = Ok (Fin r) /\ 0 <= r.
Proof.
  apply entropy_data_nonneg; [discriminate | reflexivity].
Defined.



(** [entropy(data=...)] depends only on which positions hold equal
    symbols: renaming the symbols by a map that preserves equality and
    hashability leaves the result, or the error, unchanged. *)
Theorem entropy_data_relabel : forall (f : val -> val) d e,
  (forall u v, val_eqb (f u) (f v) = val_eqb u v) ->
  (forall u, hashable (f u) = hashable u) ->
  entropy (Some (map f d)) None e = entropy (Some d) None e.
Proof.
  intros f d e Heq Hh. unfold entropy.
  rewrite (symbols_to_prob_relabel val f (fun v => v) Heq Hh d), map_id.
  reflexivity.
Qed.

Lemma entropy_data_relabel_witness :
  entropy (Some (map (fun v => VTuple [v; VInt 0]) [VInt 1; VInt 2; VInt 1]))
    None errorVal_default
  = entropy (Some [VInt 1; VInt 2; VInt 1]) None errorVal_default.
Proof.
  apply entropy_data_relabel.
  - intros u v. simpl. rewrite !andb_true_r. reflexivity.
  - intros u. simpl. rewrite !andb_true_r. reflexivity.
Defined.

(** ** Further properties of [mi] and [combine_symbols] *)

Lemma symbols_to_prob_hashable_ok : forall s,
  forallb hashable s = true -> exists p, symbols_to_prob s = Ok p.
Proof.
  intros s H. unfold symbols_to_prob, Counter.
  rewrite count_into_hashable by exact H. eexists. reflexivity.
Qed.

Lemma zip2_diag : forall x, zip2 x x = map (fun v => VTuple [v; v]) x.
Proof. induction x as [| a x IH]; simpl; [reflexivity | rewrite IH; reflexivity]. Qed.

Lemma zip2_repeat : forall x a,
  zip2 x (repeat a (length x)) = map (fun v => VTuple [v; a]) x.
Proof. induction x as [| v x IH]; intros a; simpl; [reflexivity | rewrite IH; reflexivity]. Qed.

Lemma entropy_prob_one : entropy_prob [1] = Ok (Fin 0).
Proof.
  rewrite entropy_prob_valid by (unfold sumR; simpl; lra || (repeat constructor; lra)).
  cbn [map sumR fold_right]. rewrite plogp_1. do 2 f_equal. ring.
Qed.


(** [mi(x, x)] is [entropy(data=x)] for a non-empty sequence of hashable
    symbols: the joint counts of [zip(x, x)] are the counts of [x]. *)
Theorem mi_self_is_entropy : forall x,
  x <> [] -> forallb hashable x = true ->
  mi x x = entropy (Some x) None errorVal_default.
Proof.
  intros x Hne Hh.
  destruct (symbols_to_prob_ok x Hne Hh) as [p [Hp [Hs Hnn]]].
  unfold mi. rewrite zip2_diag.
  rewrite (symbols_to_prob_relabel val (fun v => VTuple [v; v]) (fun v => v))
    by (intros; simpl; rewrite ?andb_true_r, ?andb_diag; reflexivity).
  rewrite map_id, Hp. cbn [bind].
  rewrite (entropy_prob_valid p Hs Hnn). cbn [bind].
  unfold entropy. rewrite Hp, bind_Ok, (entropy_of_nonneg p Hnn).
  cbn [pf_sub pf_add pf_mul]. do 2 f_equal. ring.
Qed.

Lemma mi_self_is_entropy_witness :
  mi [VInt 3; VInt 1; VInt 3] [VInt 3; VInt 1; VInt 3]
  = entropy (Some [VInt 3; VInt 1; VInt 3]) None errorVal_default.
Proof. apply mi_self_is_entropy; [discriminate | reflexivity]. Defined.

(** [mi] with an empty first sequence and a hashable second one raises
    [ValueError]: the empty distribution sums to 0, which fails the sum
    check of [entropy(prob=...)]. *)
Theorem mi_empty_raises : forall y,
  forallb hashable y = true -> mi [] y = Err (ValueError msg_sum).
Proof.
  intros y Hh. destruct (symbols_to_prob_hashable_ok y Hh) as [py Hy].
  unfold mi. rewrite symbols_to_prob_empty, Hy. cbn [bind zip2].
  rewrite symbols_to_prob_empty. cbn [bind].
  unfold entropy_prob, entropy, errorVal_default. cbn [sumR fold_right].
  replace (Rabs (0 - 1)) with 1 by (unfold Rabs; destruct (Rcase_abs _); lra).
  destruct (Rlt_dec _ _) as [_ | K]; [reflexivity | lra].
Qed.

Lemma mi_empty_raises_witness :
  mi [] [VInt 1; VInt 2] = Err (ValueError msg_sum).
Proof. apply mi_empty_raises. reflexivity. Defined.

(** A sequence carries no information about a constant one: [mi(x, y)]
    is exactly 0 when [y] repeats one hashable symbol [len(x)] times. *)
Theorem mi_constant_is_zero : forall x a,
  x <> [] -> forallb hashable x = true -> hashable a = true ->
  mi x (repeat a (length x)) = Ok (Fin 0).
Proof.
  intros x a Hne Hh Ha.
  destruct (symbols_to_prob_ok x Hne Hh) as [p [Hp [Hs Hnn]]].
  assert (Hl : exists m, length x = S m)
    by (destruct x; [congruence | eexists; reflexivity]).
  destruct Hl as [m Hl].
  unfold mi. rewrite zip2_repeat.
  rewrite (symbols_to_prob_relabel val (fun v => VTuple [v; a]) (fun v => v))
    by (intros; simpl; rewrite ?val_eqb_refl, ?Ha, ?andb_true_r; reflexivity).
  rewrite map_id, Hp, Hl, (symbols_to_prob_repeat a m Ha).
  cbn [bind]. rewrite (entropy_prob_valid p Hs Hnn). cbn [bind].
  rewrite entropy_prob_one. cbn [bind pf_sub pf_add pf_mul].
  do 2 f_equal. ring.
Qed.

Lemma mi_constant_is_zero_witness :
  mi [VInt 0; VInt 1; VInt 1] (repeat (VInt 5) 3) = Ok (Fin 0).
Proof.
  apply (mi_constant_is_zero [VInt 0; VInt 1; VInt 1] (VInt 5));
    [discriminate | reflexivity | reflexivity].
Defined.


(** [cond_mi(x, y, z)] raises [ValueError] from [combine_symbols] as soon
    as [x] and [z] differ in length, whatever [y]. *)
Theorem cond_mi_length_mismatch : forall x y z,
  length x <> length z -> cond_mi x y z = Err (ValueError msg_sizes).
Proof.
  intros x y z H. unfold cond_mi, combine_symbols at 1.
  cbn [forallb hd]. rewrite Nat.eqb_refl.
  replace (length z =? length x)%nat with false
    by (symmetry; apply Nat.eqb_neq; lia).
  reflexivity.
Qed.

Lemma cond_mi_length_mismatch_witness :
  cond_mi [VInt 0; VInt 1] [VInt 0; VInt 1] [VInt 7]
  = Err (ValueError msg_sizes).
Proof. apply cond_mi_length_mismatch. discriminate. Defined.

(** ** Further properties of [cond_mi] and [mi_chain_rule] *)

Lemma combine_symbols_columns : forall args n,
  args <> [] -> Forall (fun s => length s = n) args ->
  combine_symbols args
  = Ok (map (fun i => VTuple (map (fun s => nth i s (VInt 0)) args)) (seq 0 n)).
Proof.
  intros args n Hne H.
  destruct args as [| a0 rest]; [congruence |].
  assert (Ha0 : length a0 = n) by (inversion H; assumption).
  unfold combine_symbols. cbn [hd].
  replace (forallb _ (a0 :: rest)) with true.
  2:{ symmetry. apply forallb_forall. intros s Hs. apply Nat.eqb_eq.
      rewrite Ha0. eapply Forall_forall in H; [exact H | exact Hs]. }
  unfold zip_star. rewrite Ha0, (zip_fuel_columns n _ H), map_map.
  reflexivity.
Qed.

Lemma nth_repeat_lt : forall (a d : val) n i,
  (i < n)%nat -> nth i (repeat a n) d = a.
Proof.
  intros a d n. induction n as [| n IH]; intros [| i] H; simpl;
    try reflexivity; try lia. apply IH. lia.
Qed.

Lemma map_nth_seq_id : forall (x : list val) d,
  map (fun i => nth i x d) (seq 0 (length x)) = x.
Proof.
  induction x as [| v x IH]; intros d; [reflexivity |].
  cbn [length seq map nth]. f_equal.
  rewrite <- seq_shift, map_map. apply IH.
Qed.

Lemma zip2_seq : forall x y,
  length x = length y ->
  zip2 x y = map (fun i => VTuple [nth i x (VInt 0); nth i y (VInt 0)])
               (seq 0 (length x)).
Proof.
  induction x as [| u x IH]; intros [| v y] H; simpl in H; try discriminate;
    [reflexivity |].
  cbn [zip2 length seq map nth]. f_equal.
  rewrite <- seq_shift, map_map. apply IH. lia.
Qed.

(** [cond_mi(x, y, z)] is symmetric in [x] and [y] when [x], [y] and [z]
    have equal lengths: both orders return the same float or raise the
    same exception. *)
Theorem cond_mi_symmetric : forall x y z,
  length x = length z -> length y = length z ->
  cond_mi x y z = cond_mi y x z.
Proof.
  intros x y z Hx Hy. unfold cond_mi.
  rewrite (combine_symbols_columns [x; z] (length z)),
    (combine_symbols_columns [y; z] (length z)),
    (combine_symbols_columns [x; y; z] (length z)),
    (combine_symbols_columns [y; x; z] (length z))
    by (discriminate || (repeat constructor; assumption)).
  cbn [bind].
  rewrite (symbols_to_prob_relabel nat
             (fun i => VTuple (map (fun s => nth i s (VInt 0)) [y; x; z]))
             (fun i => VTuple (map (fun s => nth i s (VInt 0)) [x; y; z]))).
  2:{ intros u v. simpl.
      destruct (val_eqb (nth u x (VInt 0)) (nth v x (VInt 0))),
               (val_eqb (nth u y (VInt 0)) (nth v y (VInt 0))); reflexivity. }
  2:{ intros u. simpl.
      destruct (hashable (nth u x (VInt 0))), (hashable (nth u y (VInt 0)));
        reflexivity. }
  match goal with
  | |- bind (symbols_to_prob ?a) _ = bind (symbols_to_prob ?b) _ =>
      destruct (symbols_to_prob a) as [pxz | e1] eqn:E1;
      destruct (symbols_to_prob b) as [pyz | e2] eqn:E2
  end; cbn [bind]; try reflexivity.
  - match goal with
    | |- bind (symbols_to_prob ?a) _ = _ => destruct (symbols_to_prob a)
    end; cbn [bind]; [| reflexivity].
    destruct (symbols_to_prob z); cbn [bind]; [| reflexivity].
    destruct (entropy_prob pxz) as [hxz | ea] eqn:F1,
             (entropy_prob pyz) as [hyz | eb] eqn:F2; cbn [bind];
      try reflexivity.
    + match goal with
      | |- bind (entropy_prob ?a) _ = _ => destruct (entropy_prob a)
      end; cbn [bind]; [| reflexivity].
      match goal with
      | |- bind (entropy_prob ?a) _ = _ => destruct (entropy_prob a)
      end; cbn [bind]; [| reflexivity].
      rewrite (pf_add_comm hxz hyz). reflexivity.
    + rewrite (entropy_prob_err _ _ F1), (entropy_prob_err _ _ F2).
      reflexivity.
  - rewrite (symbols_to_prob_err _ _ E1), (symbols_to_prob_err _ _ E2).
    reflexivity.
Qed.

Lemma cond_mi_symmetric_witness :
  cond_mi [VInt 0; VInt 1; VInt 1] [VInt 1; VInt 1; VInt 0] [VInt 2; VInt 2; VInt 3]
  = cond_mi [VInt 1; VInt 1; VInt 0] [VInt 0; VInt 1; VInt 1] [VInt 2; VInt 2; VInt 3].
Proof. apply cond_mi_symmetric; reflexivity. Defined.

(** Conditioning on a constant changes nothing: for non-empty sequences
    [x] and [y] of hashable symbols of equal length and a hashable [a],
    [cond_mi(x, y, [a] * len(x))] equals [mi(x, y)]. *)
Theorem cond_mi_constant_is_mi : forall x y a,
  x <> [] -> forallb hashable x = true -> forallb hashable y = true ->
  hashable a = true -> length y = length x ->
  cond_mi x y (repeat a (length x)) = mi x y.
Proof.
  intros x y a Hne Hhx Hhy Ha Hl.
  set (n := length x).
  assert (Hm : exists m, n = S m)
    by (unfold n; destruct x; [congruence | eexists; reflexivity]).
  destruct Hm as [m Hm].
  assert (Hyne : y <> []) by (destruct y, x; simpl in *; congruence).
  assert (Hr : length (repeat a n) = n) by apply repeat_length.
  assert (Cxz : combine_symbols [x; repeat a n]
                = Ok (map (fun i => VTuple [nth i x (VInt 0); a]) (seq 0 n))).
  { rewrite (combine_symbols_columns _ n) by
      (discriminate || (repeat constructor; assumption)).
    f_equal. apply map_ext_in. intros i Hi. apply in_seq in Hi.
    cbn [map]. rewrite nth_repeat_lt by lia. reflexivity. }
  assert (Cyz : combine_symbols [y; repeat a n]
                = Ok (map (fun i => VTuple [nth i y (VInt 0); a]) (seq 0 n))).
  { rewrite (combine_symbols_columns _ n) by
      (discriminate || (repeat constructor; unfold n; assumption)).
    f_equal. apply map_ext_in. intros i Hi. apply in_seq in Hi.
    cbn [map]. rewrite nth_repeat_lt by lia. reflexivity. }
  assert (Cxyz : combine_symbols [x; y; repeat a n]
                 = Ok (map (fun i => VTuple [nth i x (VInt 0); nth i y (VInt 0); a])
                         (seq 0 n))).
  { rewrite (combine_symbols_columns _ n) by
      (discriminate || (repeat constructor; unfold n; assumption)).
    f_equal. apply map_ext_in. intros i Hi. apply in_seq in Hi.
    cbn [map]. rewrite nth_repeat_lt by lia. reflexivity. }
  assert (Sxz : symbols_to_prob (map (fun i => VTuple [nth i x (VInt 0); a]) (seq 0 n))
                = symbols_to_prob x).
  { rewrite (symbols_to_prob_relabel nat _ (fun i => nth i x (VInt 0))).
    - unfold n. rewrite map_nth_seq_id. reflexivity.
    - intros u v. simpl. rewrite val_eqb_refl, !andb_true_r. reflexivity.
    - intros u. simpl. rewrite Ha, !andb_true_r. reflexivity. }
  assert (Syz : symbols_to_prob (map (fun i => VTuple [nth i y (VInt 0); a]) (seq 0 n))
                = symbols_to_prob y).
  { rewrite (symbols_to_prob_relabel nat _ (fun i => nth i y (VInt 0))).
    - unfold n. rewrite <- Hl, map_nth_seq_id. reflexivity.
    - intros u v. simpl. rewrite val_eqb_refl, !andb_true_r. reflexivity.
    - intros u. simpl. rewrite Ha, !andb_true_r. reflexivity. }
  assert (Sxyz : symbols_to_prob
                   (map (fun i => VTuple [nth i x (VInt 0); nth i y (VInt 0); a])
                      (seq 0 n))
                 = symbols_to_prob (zip2 x y)).
  { rewrite (symbols_to_prob_relabel nat _
               (fun i => VTuple [nth i x (VInt 0); nth i y (VInt 0)])).
    - unfold n. rewrite zip2_seq by lia. reflexivity.
    - intros u v. simpl. rewrite val_eqb_refl, !andb_true_r. reflexivity.
    - intros u. simpl. rewrite Ha, !andb_true_r. reflexivity. }
  destruct (symbols_to_prob_ok x Hne Hhx) as [px [Hpx [Spx Npx]]].
  destruct (symbols_to_prob_ok y Hyne Hhy) as [py [Hpy [Spy Npy]]].
  assert (Hz : zip2 x y <> []) by (destruct x, y; simpl; congruence).
  destruct (symbols_to_prob_ok (zip2 x y) Hz (forallb_zip2 x y Hhx Hhy))
    as [pxy [Hpxy [Spxy Npxy]]].
  unfold cond_mi. rewrite Cxz, Cyz, Cxyz. cbn [bind].
  rewrite Sxz, Syz, Sxyz, Hpx, Hpy, Hpxy, Hm,
    (symbols_to_prob_repeat a m Ha). cbn [bind].
  unfold mi. rewrite Hpx, Hpy, Hpxy. cbn [bind].
  rewrite (entropy_prob_valid px Spx Npx), (entropy_prob_valid py Spy Npy),
    (entropy_prob_valid pxy Spxy Npxy), entropy_prob_one.
  cbn [bind pf_sub pf_add pf_mul]. do 2 f_equal. ring.
Qed.

Lemma cond_mi_constant_is_mi_witness :
  cond_mi [VInt 0; VInt 1; VInt 1] [VInt 1; VInt 1; VInt 0] (repeat (VInt 9) 3)
  = mi [VInt 0; VInt 1; VInt 1] [VInt 1; VInt 1; VInt 0].
Proof.
  apply (cond_mi_constant_is_mi [VInt 0; VInt 1; VInt 1] [VInt 1; VInt 1; VInt 0]
           (VInt 9)); (discriminate || reflexivity).
Defined.



